(** * cache.js: the IndexedDB game cache

    A shallow embedding of [src/cache.js].  The five functions of the file
    register callbacks on IndexedDB requests and transactions; the browser
    then fires events at them.  The embedding keeps that shape:

    - every callback of the source is a state transformer ([handler]) built
      from the calls it makes ([resolve], [reject], [db_close], ...);
    - the browser's side (which events fire, and in which order) is the
      [Backend] module, driven by a "fate" that says what the storage engine
      does to the request: succeed, fail, abort, stay blocked;
    - every call made by a callback and every event fired by the backend is
      appended to a [trace], so that ordering properties ("closed before the
      promise settles") are properties of a list.

    Conventions.  A promise settles where [resolve] or [reject] is first
    called; the async wrapper's own promise follows within the same event,
    before the next one fires.  [db.close()] is recorded where it is
    called.  Keys are strings, as the source documents them.  The database
    is either absent or at version 1 with its one store ["cache"]: this file
    is its only writer. *)

From Stdlib Require Import ZArith String List Bool Lia.
From stdpp Require Import gmap strings list sorting.

Local Open Scope string_scope.
Local Open Scope nat_scope.
#[local] Set Warnings "-register-all".

(** ** JavaScript values *)

Inductive value : Type :=
  | VUndefined
  | VNull
  | VBool (b : bool)
  | VNum (n : Z)
  | VNaN
  | VStr (s : string)
  | VBlob (bytes : list Byte.byte)      (* a Blob object *)
  | VError (name : string)              (* a DOMException *)
  | VCursor (key : string)              (* an IDBCursor positioned at [key] *)
  | VArray (items : list value)
  | VDatabase.                          (* the IDBDatabase handle *)

(** ToBoolean: [undefined], [null], [false], [0], [NaN] and the empty string
    are falsy; every object (a Blob, even an empty one) is truthy. *)
Definition truthy (v : value) : bool :=
  match v with
  | VUndefined | VNull | VNaN => false
  | VBool b => b
  | VNum n => negb (n =? 0)%Z
  | VStr s => negb (String.eqb s "")
  | VBlob _ | VError _ | VCursor _ | VArray _ | VDatabase => true
  end.

(** [a || b] *)
Definition js_or (a b : value) : value := if truthy a then a else b.

(** [cursor.key] *)
Definition cursor_key (c : value) : value :=
  match c with
  | VCursor k => VStr k
  | _ => VUndefined
  end.

(** ** Promises, traces and the state of one call *)

Inductive promise : Type :=
  | Pending
  | Fulfilled (v : value)
  | Rejected (e : value).

Inductive event : Type :=
  | Blocked
  | UpgradeNeeded
  | UpgradeAborted
  | OpenSuccess
  | OpenError (e : value)
  | ReqSuccess (result : value)
  | ReqError (e : value)
  | TxComplete
  | TxError
  | TxAbort.

Inductive entry : Type :=
  | Fired (ev : event)                  (* the backend fires an event *)
  | CreateObjectStore (name : string)
  | ConsoleError (msg : string)
  | OpenSettled (p : promise)           (* the promise of openGameDB settles *)
  | Settled (p : promise)               (* the caller's promise settles *)
  | DbClose
  | Push (v : value)
  | Continue.

(** The object store ["cache"]: string keys, arbitrary values. *)
Abbreviation store := (gmap string value).

(** [idb] is the persisted database ["BalatroCacheDB"]: absent ([None],
    version 0) or at version 1 with its single object store.  The other
    fields live for one call. *)
Record state : Type := mkState {
  idb : option store;
  open_promise : promise;
  promise_of : promise;
  closed : bool;
  found_keys : list value;
  continued : bool;
  trace : list entry
}.

Definition handler : Type := state -> state.

Definition skip : handler := fun st => st.

Definition seq (f g : handler) : handler := fun st => g (f st).
Infix ">>" := seq (at level 62, right associativity).

Definition log (e : entry) : handler := fun st =>
  mkState (idb st) (open_promise st) (promise_of st) (closed st)
          (found_keys st) (continued st) (trace st ++ [e]).

Definition set_idb (d : option store) : handler := fun st =>
  mkState d (open_promise st) (promise_of st) (closed st)
          (found_keys st) (continued st) (trace st).

Definition set_open_promise (p : promise) : handler := fun st =>
  mkState (idb st) p (promise_of st) (closed st)
          (found_keys st) (continued st) (trace st).

Definition set_promise (p : promise) : handler := fun st =>
  mkState (idb st) (open_promise st) p (closed st)
          (found_keys st) (continued st) (trace st).

Definition set_closed (b : bool) : handler := fun st =>
  mkState (idb st) (open_promise st) (promise_of st) b
          (found_keys st) (continued st) (trace st).

Definition set_found_keys (l : list value) : handler := fun st =>
  mkState (idb st) (open_promise st) (promise_of st) (closed st)
          l (continued st) (trace st).

Definition set_continued (b : bool) : handler := fun st =>
  mkState (idb st) (open_promise st) (promise_of st) (closed st)
          (found_keys st) b (trace st).

(** A promise settles once: later [resolve]/[reject] calls do nothing. *)
Definition settle (p : promise) : handler := fun st =>
  match promise_of st with
  | Pending => (set_promise p >> log (Settled p)) st
  | _ => st
  end.

Definition resolve (v : value) : handler := settle (Fulfilled v).
Definition reject (e : value) : handler := settle (Rejected e).

Definition settle_open (p : promise) : handler := fun st =>
  match open_promise st with
  | Pending => (set_open_promise p >> log (OpenSettled p)) st
  | _ => st
  end.

Definition resolve_open (v : value) : handler := settle_open (Fulfilled v).
Definition reject_open (e : value) : handler := settle_open (Rejected e).

(** [db.close()] *)
Definition db_close : handler := set_closed true >> log DbClose.

(** [console.error(msg)] *)
Definition console_error (msg : string) : handler := log (ConsoleError msg).

(** [request.result.createObjectStore(name)], inside the version-change
    transaction of a database that has no store yet. *)
Definition createObjectStore (name : string) : handler :=
  log (CreateObjectStore name) >> set_idb (Some ∅).

(** [found_keys.push(v)] *)
Definition push (v : value) : handler := fun st =>
  (set_found_keys (found_keys st ++ [v]) >> log (Push v)) st.

(** [cursor.continue()] *)
Definition cursor_continue : handler := set_continued true >> log Continue.

Definition initial (d : option store) : state :=
  mkState d Pending Pending false [] false [].

(** ** The callbacks of the source *)

Record open_handlers : Type := {
  onupgradeneeded : handler;
  onsuccess : value -> handler;         (* argument: request.result *)
  onerror : value -> handler;           (* argument: request.error *)
  onblocked : handler
}.

Inductive request : Type :=
  | Get (key : string)
  | Put (v : value) (key : string)
  | Delete (key : string)
  | OpenCursor.

Inductive mode : Type := ReadOnly | ReadWrite.

Record tx_handlers : Type := {
  req_onsuccess : value -> handler;     (* argument: the request's result *)
  req_onerror : value -> handler;       (* argument: request.error *)
  tx_oncomplete : handler;
  tx_onerror : value -> handler;        (* argument: transaction.error *)
  tx_onabort : value -> handler         (* argument: transaction.error *)
}.

(** What the executor of [new Promise] sets up: a transaction on ["cache"]
    in some mode, one request, and the callbacks. *)
Record operation : Type := {
  op_mode : mode;
  op_request : request;
  op_handlers : tx_handlers
}.

(** cache.js lines 5-23 *)
Definition openGameDB : open_handlers := {|
  onupgradeneeded := createObjectStore "cache";
  onsuccess := fun result => resolve_open result;
  onerror := fun error => reject_open error;
  onblocked :=
    console_error
      "Database open blocked, likely by another tab. Please close other tabs and try again."
|}.

(** cache.js lines 32-44 *)
Definition loadCachedGame_op (key : string) : operation := {|
  op_mode := ReadOnly;
  op_request := Get key;
  op_handlers := {|
    req_onsuccess := fun result => resolve (js_or result VNull);
    req_onerror := fun error => reject error;
    tx_oncomplete := db_close;
    tx_onerror := fun _ => db_close;
    tx_onabort := fun _ => db_close
  |}
|}.

(** cache.js lines 55-77 *)
Definition saveGameToCache_op (blob : value) (key : string) : operation := {|
  op_mode := ReadWrite;
  op_request := Put blob key;
  op_handlers := {|
    req_onsuccess := fun _ => skip;
    req_onerror := fun error => reject error;
    tx_oncomplete := db_close >> resolve VUndefined;
    tx_onerror := fun txerror => db_close >> reject txerror;
    tx_onabort := fun txerror => db_close >> reject txerror
  |}
|}.

(** cache.js lines 87-106 *)
Definition deleteCachedGame_op (key : string) : operation := {|
  op_mode := ReadWrite;
  op_request := Delete key;
  op_handlers := {|
    req_onsuccess := fun _ => skip;
    req_onerror := fun error => reject error;
    tx_oncomplete := db_close >> resolve VUndefined;
    tx_onerror := fun txerror => db_close >> reject txerror;
    tx_onabort := fun txerror => db_close >> reject txerror
  |}
|}.

(** cache.js lines 115-142.  [res(found_keys)] hands over the array as it is
    when the transaction completes. *)
Definition listCachedVersions_op : operation := {|
  op_mode := ReadOnly;
  op_request := OpenCursor;
  op_handlers := {|
    req_onsuccess := fun cursor =>
      if truthy cursor then push (cursor_key cursor) >> cursor_continue else skip;
    req_onerror := fun error => reject error;
    tx_oncomplete := db_close >> (fun st => resolve (VArray (found_keys st)) st);
    tx_onerror := fun txerror => db_close >> reject txerror;
    tx_onabort := fun txerror => db_close >> reject txerror
  |}
|}.

(** ** The IndexedDB backend

    The browser's storage engine, as the source relies on it: which events
    reach which callback and in which order.  A fate fixes what the engine
    does, so that every run is a function of the stored data and the fates. *)

Module Backend.

(** [indexedDB.open("BalatroCacheDB", 1)] *)
Inductive open_fate : Type :=
  | OpenSucceeds (blocked_first : bool)
      (* [blocked_first]: a version change is held up by another
         connection, which then goes away *)
  | StaysBlocked                        (* the other connection never goes away *)
  | OpenFails (e : value)               (* the engine refuses to open *)
  | UpgradeFails (e : value).           (* the version-change transaction aborts *)

(** The events of an open request.  Version 1 is asked for: a database
    that is there already has it, so only an absent database is upgraded,
    and only an upgrade can be blocked or abort. *)
Definition open_script (fate : open_fate) (present : bool) : list event :=
  if present then
    match fate with
    | OpenFails e => [OpenError e]
    | _ => [OpenSuccess]
    end
  else
    match fate with
    | OpenSucceeds b => (if b then [Blocked] else []) ++ [UpgradeNeeded; OpenSuccess]
    | StaysBlocked => [Blocked]
    | OpenFails e => [OpenError e]
    | UpgradeFails e => [UpgradeNeeded; UpgradeAborted; OpenError e]
    end.

(** Fire one event at the open request.  [UpgradeAborted] has no callback
    in the source: the engine rolls the new database back. *)
Definition fire_open (h : open_handlers) (ev : event) : handler :=
  log (Fired ev) >>
  match ev with
  | Blocked => onblocked h
  | UpgradeNeeded => onupgradeneeded h
  | UpgradeAborted => set_idb None
  | OpenSuccess => onsuccess h VDatabase
  | OpenError e => onerror h e
  | _ => skip
  end.

Definition run_open (h : open_handlers) (evs : list event) : handler :=
  fun st => fold_left (fun s ev => fire_open h ev s) evs st.

Definition open_database (h : open_handlers) (fate : open_fate) : handler :=
  fun st => run_open h (open_script fate (bool_decide (is_Some (idb st)))) st.

(** A transaction with one request. *)
Inductive tx_fate : Type :=
  | Commits
  | RequestFails (after : nat) (e : value)
      (* the request fails with [e] once [after] results were delivered *)
  | AbortedPending (after : nat) (e : value)
      (* the transaction is aborted with [e] while the request is pending *)
  | CommitFails (e : value).            (* the request is served, the commit fails *)

Definition failure_point (fate : tx_fate) : option nat :=
  match fate with
  | RequestFails n _ | AbortedPending n _ => Some n
  | Commits | CommitFails _ => None
  end.

(** [request.error] when the request fails. *)
Definition request_error (fate : tx_fate) : value :=
  match fate with
  | RequestFails _ e => e
  | _ => VError "AbortError"
  end.

(** [transaction.error] while the request's error event bubbles: still
    [null] when the failed request is what will abort the transaction. *)
Definition bubbling_error (fate : tx_fate) : value :=
  match fate with
  | AbortedPending _ e => e
  | _ => VNull
  end.

(** [transaction.error] when the abort event fires. *)
Definition abort_error (fate : tx_fate) : value :=
  match fate with
  | RequestFails _ e | AbortedPending _ e | CommitFails e => e
  | Commits => VNull
  end.

(** Writing requests throw in a read-only transaction. *)
Definition allowed (m : mode) (r : request) : bool :=
  match m, r with
  | ReadOnly, Put _ _ | ReadOnly, Delete _ => false
  | _, _ => true
  end.

Definition key_le (a b : string) : Prop := String.leb a b = true.

#[global] Instance key_le_dec : RelDecision key_le.
Proof. intros a b. unfold key_le. apply _. Defined.

(** The keys of the store, in the ascending order a cursor visits them. *)
Definition store_keys (m : store) : list string :=
  merge_sort key_le (elements (dom m)).

(** The results a request delivers, one success event each: a cursor
    request delivers a cursor per key, then [null]. *)
Definition results (r : request) (m : store) : list value :=
  match r with
  | Get k => [default VUndefined (m !! k)]
  | Put _ k => [VStr k]
  | Delete _ => [VUndefined]
  | OpenCursor => map VCursor (store_keys m) ++ [VNull]
  end.

(** What the request does to the store once the transaction commits. *)
Definition apply_request (r : request) (m : store) : store :=
  match r with
  | Put v k => <[k := v]> m
  | Delete k => delete k m
  | Get _ | OpenCursor => m
  end.

(** Deliver results until the list ends, the callback stops asking for
    more ([cursor.continue()] not called), or the failure strikes.  The
    boolean tells whether the request failed. *)
Fixpoint deliver (on_success : value -> handler) (rs : list value)
    (budget : option nat) (st : state) : state * bool :=
  match rs with
  | [] => (st, false)
  | r :: rs' =>
      match budget with
      | Some O => (st, true)
      | _ =>
          let st' := (set_continued false >> log (Fired (ReqSuccess r))
                      >> on_success r) st in
          if continued st' then deliver on_success rs' (Nat.pred <$> budget) st'
          else (st', false)
      end
  end.

(** Run the executor's transaction to its end.  A failed request fires
    [error] at the request, which bubbles to the transaction, and the
    transaction aborts; an abort leaves the store as it was. *)
Definition run_transaction (op : operation) (fate : tx_fate) : handler :=
  fun st =>
  match idb st with
  | None => reject (VError "NotFoundError") st
  | Some m =>
      if allowed (op_mode op) (op_request op) then
        let h := op_handlers op in
        let '(st1, failed) :=
          deliver (req_onsuccess h) (results (op_request op) m)
                  (failure_point fate) st in
        if failed then
          (log (Fired (ReqError (request_error fate)))
           >> req_onerror h (request_error fate)
           >> log (Fired TxError) >> tx_onerror h (bubbling_error fate)
           >> log (Fired TxAbort) >> tx_onabort h (abort_error fate)) st1
        else
          match fate with
          | CommitFails e => (log (Fired TxAbort) >> tx_onabort h e) st1
          | _ =>
              (set_idb (Some (apply_request (op_request op) m))
               >> log (Fired TxComplete) >> tx_oncomplete h) st1
          end
      else
        (reject (VError "ReadOnlyError") >> log (Fired TxComplete)) st
  end.

End Backend.

Export Backend.

(** ** The exported functions *)

(** [const db = await openGameDB(); return new Promise(executor)]: a failed
    open rejects the caller's promise, an open that never settles leaves it
    pending, and otherwise the executor's transaction runs. *)
Definition async_call (op : operation) (ofate : open_fate) (tfate : tx_fate)
    (d : option store) : state :=
  let st := open_database openGameDB ofate (initial d) in
  match open_promise st with
  | Fulfilled _ => run_transaction op tfate st
  | Rejected e => reject e st
  | Pending => st
  end.

(** [key = "vanilla"] when the argument is omitted. *)
Definition loadCachedGame (key : option string) :=
  async_call (loadCachedGame_op (default "vanilla" key)).

Definition saveGameToCache (blob : value) (key : option string) :=
  async_call (saveGameToCache_op blob (default "vanilla" key)).

Definition deleteCachedGame (key : string) :=
  async_call (deleteCachedGame_op key).

Definition listCachedVersions :=
  async_call listCachedVersions_op.

(** Fault-free fates. *)
Definition ok_open : open_fate := OpenSucceeds false.
Definition ok_tx : tx_fate := Commits.

(** What a key maps to in the persisted database. *)
Definition lookup_db (d : option store) (k : string) : option value :=
  m ← d; m !! k.

(** What the database holds, an absent database holding nothing. *)
Definition contents (d : option store) : store := default ∅ d.

(** Calls one after the other ([await] each before the next): every call
    starts from the database the previous one left. *)
Inductive invocation : Type :=
  | Load (key : option string)
  | Save (blob : value) (key : option string)
  | DeleteKey (key : string)
  | ListKeys.

Definition invoke (c : invocation) : open_fate -> tx_fate -> option store -> state :=
  match c with
  | Load key => loadCachedGame key
  | Save blob key => saveGameToCache blob key
  | DeleteKey key => deleteCachedGame key
  | ListKeys => listCachedVersions
  end.

Fixpoint run_calls (cs : list (invocation * open_fate * tx_fate))
    (d : option store) : list state :=
  match cs with
  | [] => []
  | (c, ofate, tfate) :: cs' =>
      let st := invoke c ofate tfate d in
      st :: run_calls cs' (idb st)
  end.

(** ** Properties of traces *)

Definition is_close (e : entry) : bool :=
  match e with DbClose => true | _ => false end.

Definition is_settle (e : entry) : bool :=
  match e with Settled _ => true | _ => false end.

Definition is_resolve (e : entry) : bool :=
  match e with Settled (Fulfilled _) => true | _ => false end.

Definition is_commit (e : entry) : bool :=
  match e with Fired TxComplete => true | _ => false end.

Definition is_create (e : entry) : bool :=
  match e with CreateObjectStore _ => true | _ => false end.

(** Every [b] entry of the trace has an [a] entry strictly before it. *)
Definition precedes (a b : entry -> bool) (t : list entry) : Prop :=
  forall i y, t !! i = Some y -> b y = true ->
    exists j x, j < i /\ t !! j = Some x /\ a x = true.

Fixpoint precedesb (a b : entry -> bool) (t : list entry) : bool :=
  match t with
  | [] => true
  | x :: r => if b x then false else if a x then true else precedesb a b r
  end.

(** The connection is closed before the caller's promise settles. *)
Definition closed_before_settled (st : state) : Prop :=
  precedes is_close is_settle (trace st).

(** The caller's promise is fulfilled only after the transaction committed. *)
Definition committed_before_resolved (st : state) : Prop :=
  precedes is_commit is_resolve (trace st).

(** How many times the call asked for an object store to be created. *)
Definition creations (st : state) : nat :=
  length (List.filter is_create (trace st)).

(** The call created the container and the creation was kept. *)
Definition created (st : state) : bool :=
  (0 <? creations st) && bool_decide (is_Some (idb st)).

(** ** The cursor scan of listCachedVersions, step by step *)

(** One success event of the cursor request at key [k], handled by
    [cursorReq.onsuccess]: the key is pushed and the cursor advanced. *)
Definition visit (k : string) : handler :=
  set_continued false >> log (Fired (ReqSuccess (VCursor k)))
  >> push (VStr k) >> cursor_continue.

Definition scanned (ks : list string) : handler :=
  fun st => fold_left (fun s k => visit k s) ks st.

(** The last success event, with a [null] cursor: nothing is done. *)
Definition scan_end : handler :=
  set_continued false >> log (Fired (ReqSuccess VNull)).

Fixpoint scan_trace (ks : list string) : list entry :=
  match ks with
  | [] => []
  | k :: ks' =>
      Fired (ReqSuccess (VCursor k)) :: Push (VStr k) :: Continue :: scan_trace ks'
  end.

(** No entry of the trace satisfies [a] or [b]. *)
Definition quiet (a b : entry -> bool) (t : list entry) : Prop :=
  Forall (fun e => a e = false /\ b e = false) t.

(** ** The paths of a call *)

Definition is_request_error (e : entry) : bool :=
  match e with Fired (ReqError _) => true | _ => false end.

(** An error event was fired at the request. *)
Definition request_failed (st : state) : bool :=
  existsb is_request_error (trace st).

Definition is_load (c : invocation) : bool :=
  match c with Load _ => true | _ => false end.

(** The open succeeded: the call got a connection. *)
Definition connected (st : state) : Prop :=
  open_promise st = Fulfilled VDatabase.

(** ** Lemmas on traces *)

Lemma precedesb_spec (a b : entry -> bool) (t : list entry) :
  precedesb a b t = true <-> precedes a b t.
Proof.
  unfold precedes. induction t as [|x r IH]; simpl.
  - split; [intros _ i y H; destruct i; discriminate | done].
  - destruct (b x) eqn:Hb.
    + split; [discriminate|]. intros H.
      destruct (H 0 x eq_refl Hb) as (j & _ & Hj & _). lia.
    + destruct (a x) eqn:Ha.
      * split; [|done]. intros _ [|i] y Hy Hy'.
        -- simpl in Hy. congruence.
        -- exists 0, x. split_and!; [lia | done | done].
      * rewrite IH. split.
        -- intros H [|i] y Hy Hy'; simpl in Hy; [congruence|].
           destruct (H i y Hy Hy') as (j & z & Hj & Hz & Haz).
           exists (S j), z. split_and!; [lia | done | done].
        -- intros H i y Hy Hy'.
           destruct (H (S i) y Hy Hy') as ([|j] & z & Hj & Hz & Haz);
             simpl in Hz; [congruence|].
           exists j, z. split_and!; [lia | done | done].
Qed.

Lemma precedesb_false (a b : entry -> bool) (t : list entry) :
  precedesb a b t = false -> ~ precedes a b t.
Proof. intros H Hp. apply precedesb_spec in Hp. congruence. Qed.

(** ** Fault-free runs of the single-request functions *)

Section FaultFree.

Variable d : option store.

Lemma lookup_contents (k : string) : contents d !! k = lookup_db d k.
Proof. unfold contents, lookup_db. destruct d; simpl; [done | apply lookup_empty]. Qed.

Lemma load_ok (key : option string) :
  promise_of (loadCachedGame key ok_open ok_tx d)
  = Fulfilled (js_or (default VUndefined (contents d !! default "vanilla" key)) VNull)
  /\ idb (loadCachedGame key ok_open ok_tx d) = Some (contents d).
Proof. unfold contents. destruct d; split; reflexivity. Qed.

Lemma save_ok (blob : value) (key : option string) :
  promise_of (saveGameToCache blob key ok_open ok_tx d) = Fulfilled VUndefined
  /\ idb (saveGameToCache blob key ok_open ok_tx d)
     = Some (<[default "vanilla" key := blob]> (contents d)).
Proof. unfold contents. destruct d; split; reflexivity. Qed.

Lemma delete_ok (key : string) :
  promise_of (deleteCachedGame key ok_open ok_tx d) = Fulfilled VUndefined
  /\ idb (deleteCachedGame key ok_open ok_tx d) = Some (delete key (contents d)).
Proof. unfold contents. destruct d; split; reflexivity. Qed.

End FaultFree.


(** ** What a settled promise tells, under every fate *)

Ltac fates :=
  repeat match goal with
  | f : open_fate |- _ => destruct f as [[|]| | |]
  | f : tx_fate |- _ => destruct f as [|[|?] ?|[|?] ?|?]
  | d : option store |- _ => destruct d
  | k : option string |- _ => destruct k
  end.

Lemma save_fulfilled (blob : value) (key : option string) ofate tfate d v :
  promise_of (saveGameToCache blob key ofate tfate d) = Fulfilled v ->
  v = VUndefined /\
  idb (saveGameToCache blob key ofate tfate d)
  = Some (<[default "vanilla" key := blob]> (contents d)).
Proof. fates; simpl; intros H; try discriminate H; injection H as <-; try split; reflexivity. Qed.

Lemma load_fulfilled (key : option string) ofate tfate d v :
  promise_of (loadCachedGame key ofate tfate d) = Fulfilled v ->
  v = js_or (default VUndefined (contents d !! default "vanilla" key)) VNull.
Proof. fates; simpl; intros H; try discriminate H; injection H as <-; try split; reflexivity. Qed.

(** Whatever the engine does, a load that is fulfilled after a save that was
    fulfilled yields the saved blob. *)
Lemma save_then_load_any_fate (k : option string) (b : list Byte.byte) d
    ofate1 tfate1 ofate2 tfate2 v1 v2 :
  let s1 := saveGameToCache (VBlob b) k ofate1 tfate1 d in
  promise_of s1 = Fulfilled v1 ->
  promise_of (loadCachedGame k ofate2 tfate2 (idb s1)) = Fulfilled v2 ->
  v2 = VBlob b.
Proof.
  intros s1 H1 H2. apply save_fulfilled in H1 as [_ H1].
  apply load_fulfilled in H2. subst s1. rewrite H1 in H2. simpl in H2.
  by rewrite lookup_insert_eq in H2.
Qed.

(** ** Round trips *)

Lemma save_load_roundtrip (k : option string) (b : list Byte.byte) (d : option store) :
  promise_of (loadCachedGame k ok_open ok_tx
                (idb (saveGameToCache (VBlob b) k ok_open ok_tx d)))
  = Fulfilled (VBlob b).
Proof.
  destruct (save_ok d (VBlob b) k) as [_ H2].
  destruct (load_ok (idb (saveGameToCache (VBlob b) k ok_open ok_tx d)) k) as [-> _].
  rewrite H2. simpl. by rewrite lookup_insert_eq.
Qed.

(** C1: for every key k and every blob b, save(b, k) followed by load(k)
    resolves with a value equal to b (both calls awaited, the storage engine
    serving them without a fault; an omitted key is "vanilla" in both). *)
Theorem save_then_load (k : option string) (b : list Byte.byte) (d : option store) :
  let s1 := saveGameToCache (VBlob b) k ok_open ok_tx d in
  promise_of s1 = Fulfilled VUndefined /\
  promise_of (loadCachedGame k ok_open ok_tx (idb s1)) = Fulfilled (VBlob b).
Proof.
  intros s1. split.
  - exact (proj1 (save_ok d (VBlob b) k)).
  - apply save_load_roundtrip.
Qed.

(** C7: save(b1, k), save(b2, k), load(k) resolves with b2 and never with
    b1: the second save overwrites the blob of the first. *)
Theorem save_overwrites (k : option string) (b1 b2 : list Byte.byte) (d : option store) :
  let s1 := saveGameToCache (VBlob b1) k ok_open ok_tx d in
  let s2 := saveGameToCache (VBlob b2) k ok_open ok_tx (idb s1) in
  let s3 := loadCachedGame k ok_open ok_tx (idb s2) in
  promise_of s3 = Fulfilled (VBlob b2) /\
  lookup_db (idb s2) (default "vanilla" k) = Some (VBlob b2) /\
  (b1 <> b2 -> promise_of s3 <> Fulfilled (VBlob b1)).
Proof.
  intros s1 s2 s3.
  pose proof (save_load_roundtrip k b2 (idb s1)) as H3.
  change (promise_of s3 = Fulfilled (VBlob b2)) in H3.
  split; [exact H3 | split].
  - subst s2. destruct (save_ok (idb s1) (VBlob b2) k) as [_ ->]. simpl.
    apply lookup_insert_eq.
  - intros Hne Heq. rewrite H3 in Heq. injection Heq as Heq. auto.
Qed.

Lemma save_overwrites_witness :
  let k := Some "slot" in
  let b1 := [Byte.x01] in
  let b2 := [Byte.x02; Byte.x03] in
  let s1 := saveGameToCache (VBlob b1) k ok_open ok_tx None in
  let s2 := saveGameToCache (VBlob b2) k ok_open ok_tx (idb s1) in
  let s3 := loadCachedGame k ok_open ok_tx (idb s2) in
  b1 <> b2 /\ promise_of s3 = Fulfilled (VBlob b2)
  /\ promise_of s3 <> Fulfilled (VBlob b1).
Proof.
  intros k b1 b2 s1 s2 s3.
  assert (Hne : b1 <> b2) by discriminate.
  destruct (save_overwrites k b1 b2 None) as (H & _ & Hn).
  split_and!; [exact Hne | exact H | exact (Hn Hne)].
Defined.

(** ** Absent keys and falsy values *)

(** C3: for a key that was never saved, or that was deleted, load(k)
    resolves with null and does not reject; a failing read, by contrast,
    rejects with the request's error. *)
Theorem load_absent (key : option string) (d d0 : option store) :
  lookup_db d (default "vanilla" key) = None
  \/ d = idb (deleteCachedGame (default "vanilla" key) ok_open ok_tx d0) ->
  promise_of (loadCachedGame key ok_open ok_tx d) = Fulfilled VNull
  /\ forall e, promise_of (loadCachedGame key ok_open (RequestFails 0 e) d) = Rejected e.
Proof.
  intros H. split; [|intros e; fates; reflexivity].
  destruct (load_ok d key) as [-> _]. rewrite lookup_contents.
  destruct H as [-> | ->]; [done|].
  destruct (delete_ok d0 (default "vanilla" key)) as [_ ->]. simpl.
  by rewrite lookup_delete_eq.
Qed.

Lemma load_absent_witness :
  lookup_db (Some (<["other" := VBlob []]> ∅)) "vanilla" = None
  /\ promise_of (loadCachedGame None ok_open ok_tx (Some (<["other" := VBlob []]> ∅)))
     = Fulfilled VNull.
Proof.
  assert (H : lookup_db (Some (<["other" := VBlob []]> ∅)) "vanilla" = None)
    by (vm_compute; reflexivity).
  split; [exact H|].
  exact (proj1 (load_absent None (Some (<["other" := VBlob []]> ∅)) None (or_introl H))).
Defined.

(** C5: delete(k) for a key that is not in the store resolves, and the
    store holds afterwards what it held before. *)
Theorem delete_absent (k : string) (d : option store) :
  lookup_db d k = None ->
  promise_of (deleteCachedGame k ok_open ok_tx d) = Fulfilled VUndefined
  /\ idb (deleteCachedGame k ok_open ok_tx d) = Some (contents d).
Proof.
  intros H. destruct (delete_ok d k) as [-> ->]. split; [done|].
  f_equal. apply delete_id. by rewrite lookup_contents.
Qed.

Lemma delete_absent_witness :
  lookup_db (Some (<["a" := VBlob [Byte.x01]]> ∅)) "b" = None
  /\ promise_of (deleteCachedGame "b" ok_open ok_tx (Some (<["a" := VBlob [Byte.x01]]> ∅)))
     = Fulfilled VUndefined.
Proof.
  assert (H : lookup_db (Some (<["a" := VBlob [Byte.x01]]> ∅)) "b" = None)
    by (vm_compute; reflexivity).
  split; [exact H|].
  exact (proj1 (delete_absent "b" (Some (<["a" := VBlob [Byte.x01]]> ∅)) H)).
Defined.

(** C10: when the value stored under k is falsy, load(k) resolves with null,
    and under every fate its promise is the one load(k) gives once the key
    has been removed: the caller cannot tell the two apart. *)
Theorem load_falsy (key : option string) (m : store) (v : value) :
  m !! default "vanilla" key = Some v ->
  truthy v = false ->
  promise_of (loadCachedGame key ok_open ok_tx (Some m)) = Fulfilled VNull
  /\ forall ofate tfate,
       promise_of (loadCachedGame key ofate tfate (Some m))
       = promise_of (loadCachedGame key ofate tfate
                       (Some (delete (default "vanilla" key) m))).
Proof.
  intros Hv Hf. split.
  - destruct (load_ok (Some m) key) as [-> _]. simpl. rewrite Hv. simpl.
    unfold js_or. by rewrite Hf.
  - intros ofate tfate.
    assert (Hor : forall k, m !! k = Some v ->
              js_or (default VUndefined (m !! k)) VNull
              = js_or (default VUndefined (delete k m !! k)) VNull).
    { intros k Hk. rewrite Hk, lookup_delete_eq. simpl. unfold js_or. by rewrite Hf. }
    destruct key as [k|]; simpl in Hv; specialize (Hor _ Hv);
      fates; simpl; rewrite ?Hor; reflexivity.
Qed.

Lemma load_falsy_witness :
  (<["k" := VStr ""]> ∅ : store) !! "k" = Some (VStr "")
  /\ truthy (VStr "") = false
  /\ promise_of (loadCachedGame (Some "k") ok_open ok_tx (Some (<["k" := VStr ""]> ∅)))
     = Fulfilled VNull.
Proof.
  assert (H : (<["k" := VStr ""]> ∅ : store) !! "k" = Some (VStr ""))
    by (vm_compute; reflexivity).
  split; [exact H|]. split; [reflexivity|].
  exact (proj1 (load_falsy (Some "k") (<["k" := VStr ""]> ∅) (VStr "") H eq_refl)).
Defined.

(** ** The cursor scan *)

Lemma precedesb_quiet_app (a b : entry -> bool) (l r : list entry) :
  quiet a b l -> precedesb a b (l ++ r) = precedesb a b r.
Proof.
  induction 1 as [|x l [Ha Hb] _ IH]; simpl; [done|]. by rewrite Hb, Ha.
Qed.

Lemma scan_trace_quiet (a b : entry -> bool) (ks : list string) :
  (forall r, a (Fired (ReqSuccess r)) = false /\ b (Fired (ReqSuccess r)) = false) ->
  (forall v, a (Push v) = false /\ b (Push v) = false) ->
  a Continue = false /\ b Continue = false ->
  quiet a b (scan_trace ks).
Proof.
  intros Hr Hp Hc. induction ks as [|k ks IH]; simpl; repeat constructor;
    try apply Hr; try apply Hp; try apply Hc; exact IH.
Qed.

Lemma scanned_eq (ks : list string) (st : state) :
  scanned ks st
  = mkState (idb st) (open_promise st) (promise_of st) (closed st)
      (found_keys st ++ map VStr ks)
      (match ks with [] => continued st | _ => true end)
      (trace st ++ scan_trace ks).
Proof.
  revert st. induction ks as [|k ks IH]; intros st.
  - destruct st. simpl. by rewrite !app_nil_r.
  - change (scanned (k :: ks) st) with (scanned ks (visit k st)).
    rewrite IH. simpl. rewrite <- !app_assoc. simpl.
    by destruct ks.
Qed.

Lemma deliver_cursor (ks : list string) (budget : option nat) (st : state) :
  deliver (req_onsuccess (op_handlers listCachedVersions_op))
          (map VCursor ks ++ [VNull]) budget st
  = match budget with
    | Some n =>
        if n <=? length ks then (scanned (take n ks) st, true)
        else (scan_end (scanned ks st), false)
    | None => (scan_end (scanned ks st), false)
    end.
Proof.
  revert budget st. induction ks as [|k ks IH]; intros budget st.
  - destruct budget as [[|n]|]; reflexivity.
  - destruct budget as [[|n]|].
    + reflexivity.
    + change (deliver _ (map VCursor (k :: ks) ++ [VNull]) (Some (S n)) st)
        with (deliver (req_onsuccess (op_handlers listCachedVersions_op))
                (map VCursor ks ++ [VNull]) (Some n) (visit k st)).
      rewrite IH. reflexivity.
    + change (deliver _ (map VCursor (k :: ks) ++ [VNull]) None st)
        with (deliver (req_onsuccess (op_handlers listCachedVersions_op))
                (map VCursor ks ++ [VNull]) None (visit k st)).
      rewrite IH. reflexivity.
Qed.

(** ** The keys a cursor visits *)

#[local] Instance key_le_total : Total key_le.
Proof. intros a b. apply String.leb_total. Qed.

Lemma store_keys_perm (m : store) : store_keys m ≡ₚ elements (dom m).
Proof. apply merge_sort_Permutation. Qed.

Lemma store_keys_NoDup (m : store) : NoDup (store_keys m).
Proof. rewrite store_keys_perm. apply NoDup_elements. Qed.

Lemma store_keys_elem (m : store) (k : string) :
  k ∈ store_keys m <-> is_Some (m !! k).
Proof. rewrite store_keys_perm, elem_of_elements. apply elem_of_dom. Qed.

Lemma store_keys_sorted (m : store) : Sorted key_le (store_keys m).
Proof. apply (Sorted_merge_sort key_le). Qed.

(** ** listCachedVersions under every fate *)

#[local] Arguments store_keys : simpl never.

Lemma list_fulfilled ofate tfate d v :
  promise_of (listCachedVersions ofate tfate d) = Fulfilled v ->
  v = VArray (map VStr (store_keys (contents d))).
Proof.
  unfold listCachedVersions, async_call.
  destruct ofate as [[|]| | |], d; simpl; try discriminate;
    unfold run_transaction; simpl; rewrite deliver_cursor;
    destruct tfate as [|n e1|n e1|e1]; simpl;
    try destruct (n <=? _); rewrite ?scanned_eq; simpl.
  all: intros H; try discriminate H; by injection H as <-.
Qed.

(** C6: whenever listKeys() resolves, its value is the array of the keys of
    the store at the start of the scan, in the cursor's (ascending) order,
    whatever else the engine did: a function of the store alone, without
    duplicates, holding exactly the keys that are present. *)
Theorem listKeys_complete ofate tfate (d : option store) (v : value) :
  promise_of (listCachedVersions ofate tfate d) = Fulfilled v ->
  let ks := store_keys (contents d) in
  v = VArray (map VStr ks)
  /\ NoDup ks
  /\ (forall k, k ∈ ks <-> is_Some (lookup_db d k))
  /\ Sorted key_le ks.
Proof.
  intros H ks. apply list_fulfilled in H. split_and!.
  - exact H.
  - apply store_keys_NoDup.
  - intros k. unfold ks. rewrite store_keys_elem. by rewrite lookup_contents.
  - apply store_keys_sorted.
Qed.

Lemma listKeys_complete_witness :
  let d := Some (<["c" := VBlob []]> (<["a" := VBlob []]> (<["b" := VBlob []]> ∅))) in
  promise_of (listCachedVersions ok_open ok_tx d)
  = Fulfilled (VArray [VStr "a"; VStr "b"; VStr "c"])
  /\ store_keys (contents d) = ["a"; "b"; "c"]
  /\ NoDup (store_keys (contents d)).
Proof.
  intros d.
  assert (H : promise_of (listCachedVersions ok_open ok_tx d)
              = Fulfilled (VArray [VStr "a"; VStr "b"; VStr "c"]))
    by (vm_compute; reflexivity).
  split; [exact H|]. split; [vm_compute; reflexivity|].
  exact (proj1 (proj2 (listKeys_complete ok_open ok_tx d _ H))).
Defined.

(** In a fault-free run listKeys() does resolve. *)
Lemma listKeys_ok (d : option store) :
  promise_of (listCachedVersions ok_open ok_tx d)
  = Fulfilled (VArray (map VStr (store_keys (contents d)))).
Proof.
  unfold listCachedVersions, async_call.
  destruct d; simpl; unfold run_transaction; simpl;
    rewrite deliver_cursor, scanned_eq; reflexivity.
Qed.

(** ** When the promise of save is fulfilled *)

(** C4: the promise returned by save(b, k) is fulfilled only after the
    read-write transaction has committed.  When the write request succeeds
    but the commit fails, the promise is rejected and the store keeps what it
    held. *)
Theorem save_resolves_after_commit (blob : value) (key : option string)
    ofate tfate (d : option store) (e : value) :
  committed_before_resolved (saveGameToCache blob key ofate tfate d)
  /\ (let st := saveGameToCache blob key ok_open (CommitFails e) d in
      In (Fired (ReqSuccess (VStr (default "vanilla" key)))) (trace st)
      /\ promise_of st = Rejected e
      /\ idb st = Some (contents d)).
Proof.
  split.
  - apply precedesb_spec. fates; reflexivity.
  - destruct key, d; simpl; split_and!; auto 10; reflexivity.
Qed.

(** ** A blocked open *)

(** C9: when the open request is blocked, the callback logs a diagnostic on
    the console, the promise of open() stays pending (it is not rejected,
    and neither is the caller's) for as long as the other holder stays, and
    once the holder goes away the upgrade runs and the promise is fulfilled
    with the connection. *)
Theorem blocked_open_logs_and_waits :
  let st1 := run_open openGameDB [Blocked] (initial None) in
  open_promise st1 = Pending
  /\ trace st1 =
       [Fired Blocked;
        ConsoleError
          "Database open blocked, likely by another tab. Please close other tabs and try again."]
  /\ open_database openGameDB StaysBlocked (initial None) = st1
  /\ (forall c tfate, promise_of (invoke c StaysBlocked tfate None) = Pending)
  /\ open_database openGameDB (OpenSucceeds true) (initial None)
     = run_open openGameDB [UpgradeNeeded; OpenSuccess] st1
  /\ open_promise (open_database openGameDB (OpenSucceeds true) (initial None))
     = Fulfilled VDatabase
  /\ (forall key, promise_of (loadCachedGame key (OpenSucceeds true) ok_tx None)
                  = Fulfilled VNull).
Proof.
  simpl. split_and!.
  - reflexivity.
  - reflexivity.
  - reflexivity.
  - intros c tfate. destruct c; reflexivity.
  - reflexivity.
  - reflexivity.
  - intros key. destruct key; reflexivity.
Qed.

(** ** Closing the connection *)

Ltac run_list :=
  unfold listCachedVersions, async_call;
  match goal with
  | |- context [open_database _ ?f (initial ?d)] =>
      destruct f as [[|]| | |]; destruct d
  end; simpl; unfold run_transaction; simpl; rewrite ?deliver_cursor;
  match goal with
  | |- context [failure_point ?t] => destruct t as [|?n ?e1|?n ?e1|?e1]
  | _ => idtac
  end; simpl;
  try match goal with
  | |- context [?n <=? ?l] => destruct (n <=? l)
  end; rewrite ?scanned_eq; simpl.

Lemma list_close_discipline ofate tfate (d : option store) :
  let st := listCachedVersions ofate tfate d in
  connected st ->
  closed st = true /\ In DbClose (trace st)
  /\ (request_failed st = false -> closed_before_settled st).
Proof.
  unfold connected, closed_before_settled, request_failed. run_list.
  all: intros H; try discriminate H.
  all: split; [reflexivity|]; split; [rewrite ?in_app_iff; simpl; auto 10|].
  all: rewrite <- ?app_assoc; simpl.
  all: rewrite ?existsb_app; simpl; rewrite ?orb_true_r; intros Hf; try discriminate Hf.
  all: apply precedesb_spec; simpl.
  all: rewrite precedesb_quiet_app by (apply scan_trace_quiet; auto).
  all: reflexivity.
Qed.

Lemma single_close_discipline (c : invocation) ofate tfate (d : option store) :
  c <> ListKeys ->
  let st := invoke c ofate tfate d in
  connected st ->
  closed st = true /\ In DbClose (trace st)
  /\ (is_load c = false -> request_failed st = false -> closed_before_settled st).
Proof.
  unfold connected, closed_before_settled, request_failed.
  intros Hc. destruct c as [key|blob key|key|]; [| | |done]; fates; simpl.
  all: intros H; try discriminate H.
  all: split; [reflexivity|]; split; [by repeat (first [left; reflexivity | right])|].
  all: intros Hl Hf; try discriminate Hl; try discriminate Hf.
  all: apply precedesb_spec; reflexivity.
Qed.

(** C2, as the source has it: once the call has its connection, every
    path ends with the connection closed; and for save, delete and listKeys
    the connection is closed before the caller's promise settles on every
    path on which no request fails (the transaction completes, or it aborts
    at the commit). *)
Theorem close_discipline (c : invocation) ofate tfate (d : option store) :
  let st := invoke c ofate tfate d in
  connected st ->
  closed st = true /\ In DbClose (trace st)
  /\ (is_load c = false -> request_failed st = false -> closed_before_settled st).
Proof.
  destruct c as [key|blob key|key|].
  - by apply single_close_discipline.
  - by apply single_close_discipline.
  - by apply single_close_discipline.
  - intros st Hst. destruct (list_close_discipline ofate tfate d Hst) as (H1 & H2 & H3).
    auto.
Qed.

Lemma close_discipline_witness :
  let st := invoke (Save (VBlob [Byte.x01; Byte.x02]) (Some "vanilla"))
                   ok_open (CommitFails (VError "QuotaExceededError")) None in
  connected st /\ closed st = true /\ closed_before_settled st.
Proof.
  intros st.
  assert (Hc : connected st) by reflexivity.
  destruct (close_discipline (Save (VBlob [Byte.x01; Byte.x02]) (Some "vanilla"))
              ok_open (CommitFails (VError "QuotaExceededError")) None Hc)
    as (H1 & _ & H3).
  split; [exact Hc|]. split; [exact H1|]. exact (H3 eq_refl eq_refl).
Defined.

(** C2 as the specification words it fails: load settles its promise when
    the get request succeeds, before the transaction completes and the
    connection is closed; and a request that fails rejects the promise of
    save at the request's error event, before the close. *)
Lemma settles_before_close :
  let d := Some (<["vanilla" := VBlob [Byte.x01; Byte.x02]]> ∅) in
  let st1 := loadCachedGame (Some "vanilla") ok_open ok_tx d in
  let st2 := saveGameToCache (VBlob []) (Some "vanilla") ok_open
               (RequestFails 0 (VError "DataError")) d in
  (connected st1 /\ promise_of st1 = Fulfilled (VBlob [Byte.x01; Byte.x02])
   /\ closed st1 = true /\ ~ closed_before_settled st1)
  /\ (connected st2 /\ promise_of st2 = Rejected (VError "DataError")
      /\ closed st2 = true /\ ~ closed_before_settled st2).
Proof.
  intros d st1 st2. split; split_and!; try (vm_compute; reflexivity).
  - apply precedesb_false. vm_compute. reflexivity.
  - apply precedesb_false. vm_compute. reflexivity.
Qed.

(** ** Creating the object store *)

Lemma scan_trace_no_create (ks : list string) :
  List.filter is_create (scan_trace ks) = [].
Proof. induction ks as [|k ks IH]; [done|]. simpl. exact IH. Qed.

Lemma list_creations ofate tfate (d : option store) :
  let st := listCachedVersions ofate tfate d in
  creations st <= 1 /\ (is_Some d -> creations st = 0 /\ is_Some (idb st)).
Proof.
  unfold creations. run_list.
  all: rewrite ?List.filter_app, ?scan_trace_no_create; simpl.
  all: split; [lia|]; intros [m Hm];
    first [discriminate Hm | split; [reflexivity|eauto]].
Qed.

Lemma invoke_creations (c : invocation) ofate tfate (d : option store) :
  let st := invoke c ofate tfate d in
  creations st <= 1 /\ (is_Some d -> creations st = 0 /\ is_Some (idb st)).
Proof.
  destruct c as [key|blob key|key|]; [| | |apply list_creations].
  all: unfold creations; fates; simpl.
  all: split; [lia|]; intros [m Hm];
    first [discriminate Hm | split; [reflexivity|eauto]].
Qed.

Lemma present_stays (cs : list (invocation * open_fate * tx_fate)) (d : option store) :
  is_Some d ->
  Forall (fun st => creations st = 0 /\ is_Some (idb st)) (run_calls cs d).
Proof.
  revert d. induction cs as [|[[c ofate] tfate] cs IH]; intros d Hd; simpl.
  - constructor.
  - destruct (invoke_creations c ofate tfate d) as [_ H]. specialize (H Hd).
    constructor; [exact H|]. apply IH, H.
Qed.

Lemma present_never_created (cs : list (invocation * open_fate * tx_fate)) (d : option store) :
  is_Some d ->
  List.filter created (run_calls cs d) = [].
Proof.
  intros Hd. apply present_stays with (cs := cs) in Hd.
  induction Hd as [|st l [H0 _] _ IH]; [done|].
  simpl. unfold created at 1. rewrite H0. simpl. exact IH.
Qed.

(** C8: the container is created at most once over any sequence of calls:
    at most one call creates the object store and keeps it, and from a
    database that exists on, no call asks for a creation and the database
    stays.  Opening a database that exists leaves it as it is and does
    nothing but settle the open request. *)
Theorem container_created_once (cs : list (invocation * open_fate * tx_fate))
    (d : option store) :
  length (List.filter created (run_calls cs d)) <= 1
  /\ (is_Some d ->
      Forall (fun st => creations st = 0 /\ is_Some (idb st)) (run_calls cs d))
  /\ (forall ofate m,
        let st := open_database openGameDB ofate (initial (Some m)) in
        idb st = Some m /\ creations st = 0
        /\ (trace st = [Fired OpenSuccess; OpenSettled (Fulfilled VDatabase)]
            \/ exists e, trace st = [Fired (OpenError e); OpenSettled (Rejected e)])).
Proof.
  split_and!.
  - revert d. induction cs as [|[[c ofate] tfate] cs IH]; intros d; simpl; [lia|].
    destruct (idb (invoke c ofate tfate d)) as [m|] eqn:Hdb.
    + pose proof (present_never_created cs (Some m) (mk_is_Some _ _ eq_refl)) as Hr.
      rewrite Hr. destruct (created (invoke c ofate tfate d)); simpl; lia.
    + unfold created at 1. rewrite Hdb, andb_false_r. apply IH.
  - apply present_stays.
  - intros ofate m. destruct ofate as [[|]| | |]; simpl; split_and!; eauto.
Qed.

Lemma container_created_once_witness :
  let cs := [(Load None, UpgradeFails (VError "AbortError"), ok_tx);
             (Save (VBlob [Byte.x01]) None, ok_open, ok_tx);
             (ListKeys, ok_open, ok_tx)] in
  map creations (run_calls cs None) = [1; 1; 0]
  /\ map created (run_calls cs None) = [false; true; false]
  /\ length (List.filter created (run_calls cs None)) <= 1
  /\ Forall (fun st => creations st = 0 /\ is_Some (idb st))
            (run_calls cs (Some ∅)).
Proof.
  intros cs. split; [vm_compute; reflexivity|]. split; [vm_compute; reflexivity|].
  destruct (container_created_once cs None) as (H1 & _ & _).
  destruct (container_created_once cs (Some ∅)) as (_ & H2 & _).
  split; [exact H1|]. exact (H2 (mk_is_Some _ _ eq_refl)).
Defined.

(** ** The scenario of the specification *)

(** Fresh store; load "vanilla" gives null; save the bytes 01 02; load gives
    them back; listKeys gives ["vanilla"]; delete; load gives null again. *)
Example concrete_scenario :
  let blob := VBlob [Byte.x01; Byte.x02] in
  let s1 := loadCachedGame (Some "vanilla") ok_open ok_tx None in
  let s2 := saveGameToCache blob (Some "vanilla") ok_open ok_tx (idb s1) in
  let s3 := loadCachedGame (Some "vanilla") ok_open ok_tx (idb s2) in
  let s4 := listCachedVersions ok_open ok_tx (idb s3) in
  let s5 := deleteCachedGame "vanilla" ok_open ok_tx (idb s4) in
  let s6 := loadCachedGame (Some "vanilla") ok_open ok_tx (idb s5) in
  map promise_of [s1; s2; s3; s4; s5; s6]
  = [Fulfilled VNull; Fulfilled VUndefined; Fulfilled blob;
     Fulfilled (VArray [VStr "vanilla"]); Fulfilled VUndefined; Fulfilled VNull].
Proof. vm_compute. reflexivity. Qed.
